(** * ppl.lexer: the lexical analyser of the propositional-logic notation

    A shallow embedding of [src/ppl/lexer.py] and the properties of its
    symbol table ([Symbol]), operator table ([Operator]) and scanner
    ([get_all_tokens]).

    Python values are modelled as follows.
    - A [str] is the list of its code points ([ord] of each character), so an
      index into the list is an index into the Python string.
    - An [int] is a [Z].
    - A call that may raise returns a [result]; a generator is the finite
      trace [Gen] of what its consumer observes.
    - The Unicode character database behind [str.isalpha] and [str.upper] is
      written out for U+0000..U+00FF and left as a parameter ([UCD]) above. *)

From Stdlib Require Import String Ascii ZArith List Bool Lia.
From Stdlib Require DecimalString DecimalZ DecimalPos.
Import ListNotations.
Open Scope Z_scope.

(** ** Strings *)

Definition char := Z.
Definition str := list char.

(** An ASCII literal as a Python string. *)
Definition py (lit : string) : str :=
  map (fun a => Z.of_N (N_of_ascii a)) (list_ascii_of_string lit).

Definition len (s : str) : Z := Z.of_nat (length s).

Fixpoint str_eqb (a b : str) : bool :=
  match a, b with
  | [], [] => true
  | x :: a', y :: b' => (x =? y) && str_eqb a' b'
  | _, _ => false
  end.

Definition in_range (lo hi c : char) : bool := (lo <=? c) && (c <=? hi).

(** [s.startswith(prefix)] *)
Fixpoint startswith (s prefix : str) {struct prefix} : bool :=
  match prefix, s with
  | [], _ => true
  | p :: prefix', c :: s' => (c =? p) && startswith s' prefix'
  | _ :: _, [] => false
  end.

(** [s.find(sub)]: the lowest index at which [sub] occurs in [s], or -1. *)
Fixpoint find_from (i : Z) (s sub : str) : Z :=
  if startswith s sub then i
  else match s with
       | [] => -1
       | _ :: s' => find_from (i + 1) s' sub
       end.

Definition find (s sub : str) : Z := find_from 0 s sub.

(** [string.ascii_uppercase] *)
Definition ascii_uppercase : str := py "ABCDEFGHIJKLMNOPQRSTUVWXYZ".

(** ** Exceptions and results *)

(** The messages of the three [ValueError]s the module raises. *)
Inductive value_error :=
| NotSingleCharacter                (* from_letter: the string is not one character *)
| NotALetter                        (* from_letter: the character is not a letter *)
| NoOperatorFor (form : str).       (* from_input_form: no operator has this input form *)

(** [LexicalAnalysisFailedError]'s message is an f-string of [mat.start() + 1]
    and [repr(mat.group())]; the two interpolated values are kept. *)
Inductive exn :=
| ValueError (why : value_error)
| RuntimeError
| IndexError
| LexicalAnalysisFailedError (column : Z) (text : str).

Inductive result (A : Type) :=
| Ok (a : A)
| Raised (e : exn).
Arguments Ok {A} a.
Arguments Raised {A} e.

(** [s[i]] for an [int] index: negative indices count from the end. *)
Definition getitem (s : str) (i : Z) : result str :=
  let j := if i <? 0 then i + len s else i in
  if (0 <=? j) && (j <? len s)
  then Ok [nth (Z.to_nat j) s 0]
  else Raised IndexError.

(** ** The Unicode character database *)

(** What CPython's database says of the code points above U+00FF: whether one
    is alphabetic (a general category of letters), and its full uppercase mapping. *)
Record UCD := {
  ucd_isalpha : char -> bool;
  ucd_upper : char -> str
}.

(** Alphabetic code points of Basic Latin and the Latin-1 Supplement:
    A-Z, a-z, U+00AA, U+00B5, U+00BA, U+00C0..U+00D6, U+00D8..U+00F6,
    U+00F8..U+00FF. *)
Definition latin1_isalpha (c : char) : bool :=
  in_range 65 90 c || in_range 97 122 c
  || (c =? 170) || (c =? 181) || (c =? 186)
  || in_range 192 214 c || in_range 216 246 c || in_range 248 255 c.

(** Full uppercase mapping on the same two blocks: U+00B5 goes to U+039C,
    U+00DF to "SS" and U+00FF to U+0178. *)
Definition latin1_upper (c : char) : str :=
  if in_range 97 122 c then [c - 32]
  else if c =? 181 then [924]
  else if c =? 223 then [83; 83]
  else if in_range 224 246 c || in_range 248 254 c then [c - 32]
  else if c =? 255 then [376]
  else [c].

(** The database in which no code point above U+00FF is a letter; the
    closed examples are evaluated in it. *)
Definition latin1_only : UCD :=
  {| ucd_isalpha := fun _ => false; ucd_upper := fun c => [c] |}.

Section Unicode.
Variable ucd : UCD.

Definition isalpha_char (c : char) : bool :=
  if in_range 0 255 c then latin1_isalpha c else ucd_isalpha ucd c.

Definition upper_char (c : char) : str :=
  if in_range 0 255 c then latin1_upper c else ucd_upper ucd c.

(** [s.isalpha()]: every character is alphabetic and there is at least one. *)
Definition isalpha (s : str) : bool :=
  match s with
  | [] => false
  | _ => forallb isalpha_char s
  end.

(** [s.upper()] *)
Definition upper (s : str) : str := flat_map upper_char s.
End Unicode.

(** [\s] on a [str] pattern: the characters for which [str.isspace] holds. *)
Definition isspace_char (c : char) : bool :=
  in_range 9 13 c || in_range 28 32 c
  || (c =? 133) || (c =? 160) || (c =? 5760)
  || in_range 8192 8202 c || (c =? 8232) || (c =? 8233)
  || (c =? 8239) || (c =? 8287) || (c =? 12288).

(** ** class Symbol(int) *)

Module Symbol.
Definition t := Z.

Section WithUCD.
Variable ucd : UCD.

Definition from_letter (letter : str) : result t :=
  if negb (len letter =? 1) then Raised (ValueError NotSingleCharacter)
  else if negb (isalpha ucd letter) then Raised (ValueError NotALetter)
  else Ok (find ascii_uppercase (upper ucd letter)).
End WithUCD.

(** [__str__] *)
Definition to_str (self : t) : result str := getitem ascii_uppercase self.
End Symbol.

(** ** class Operator(enum.Enum) *)

Record OperatorSpec := {
  input_form : str;
  actual_form : str;
  priority : Z
}.

Module Operator.
Inductive t := NEG | CONJ | DISJ | MAT_COND | BICOND.

Definition value (op : t) : OperatorSpec :=
  match op with
  | NEG => {| input_form := py "!"; actual_form := [172]; priority := 100 |}
  | CONJ => {| input_form := py "&"; actual_form := [8743]; priority := 90 |}
  | DISJ => {| input_form := py "|"; actual_form := [8744]; priority := 80 |}
  | MAT_COND => {| input_form := py "~"; actual_form := [8594]; priority := 70 |}
  | BICOND => {| input_form := py "="; actual_form := [8596]; priority := 60 |}
  end.

(** Iterating over the class yields the members in definition order. *)
Definition members : list t := [NEG; CONJ; DISJ; MAT_COND; BICOND].

Fixpoint lookup (ops : list t) (form : str) : result t :=
  match ops with
  | [] => Raised (ValueError (NoOperatorFor form))
  | op :: ops' =>
      if str_eqb (input_form (value op)) form then Ok op
      else lookup ops' form
  end.

Definition from_input_form (form : str) : result t := lookup members form.
End Operator.

(** ** Tokens *)

(** The dataclass [AbstractToken] and its four concrete subclasses; the
    [value] of a parenthesis token is [None]. *)
Inductive Token :=
| SymbolToken (value : Symbol.t) (position : Z)
| OperatorToken (value : Operator.t) (position : Z)
| LeftParenToken (position : Z)
| RightParenToken (position : Z).

Definition position (t : Token) : Z :=
  match t with
  | SymbolToken _ p | OperatorToken _ p | LeftParenToken p | RightParenToken p => p
  end.

(** ** Generators *)

(** What the consumer of a generator observes, one [next] at a time: a
    token, the normal end of the iteration, or an exception. *)
Inductive Gen :=
| StopIteration
| Yield (t : Token) (rest : Gen)
| Raise (e : exn).

(** The generator that yields [toks] and then ends as [fin]. *)
Definition yields (toks : list Token) (fin : Gen) : Gen :=
  fold_right Yield fin toks.

Fixpoint yielded (g : Gen) : list Token :=
  match g with
  | Yield t rest => t :: yielded rest
  | _ => []
  end.

(** The exception that ends the iteration, [None] when it ends normally. *)
Fixpoint raised (g : Gen) : option exn :=
  match g with
  | StopIteration => None
  | Yield _ rest => raised rest
  | Raise e => Some e
  end.

(** ** Regular expressions *)

(** The fragment of [re] syntax that [create_token_spec] uses. *)
Inductive regex :=
| Lit (text : str)               (* re.escape(text) *)
| Class (set : char -> bool)     (* one character of a set: [..], \s or . *)
| Plus (set : char -> bool)      (* one or more characters of a set, greedy *)
| Alt (a b : regex).             (* a|b, the left alternative first *)

(** ['|'.join(rs)] *)
Fixpoint join_alt (rs : list regex) : regex :=
  match rs with
  | [] => Lit []
  | [r] => r
  | r :: rs' => Alt r (join_alt rs')
  end.

Fixpoint span (set : char -> bool) (s : str) : nat :=
  match s with
  | c :: s' => if set c then S (span set s') else O
  | [] => O
  end.

(** The length of the match of [r] at the start of [s]. *)
Fixpoint match_regex (r : regex) (s : str) : option nat :=
  match r with
  | Lit text => if startswith s text then Some (length text) else None
  | Class set =>
      match s with
      | c :: _ => if set c then Some 1%nat else None
      | [] => None
      end
  | Plus set =>
      match span set s with
      | O => None
      | n => Some n
      end
  | Alt a b =>
      match match_regex a s with
      | Some n => Some n
      | None => match_regex b s
      end
  end.

(** A pattern ['|'.join('(?P<name>regex)')]: the first group that matches
    at the start of [s] is the match's [lastgroup]. *)
Fixpoint match_groups (groups : list (string * regex)) (s : str)
  : option (string * nat) :=
  match groups with
  | [] => None
  | (name, r) :: groups' =>
      match match_regex r s with
      | Some n => Some (name, n)
      | None => match_groups groups' s
      end
  end.

(** A match object: [mat.lastgroup], [mat.group()] and [mat.start()]. *)
Record Match := {
  lastgroup : string;
  group : str;
  start : Z
}.

(** [pattern.finditer(s)], the scan being at offset [pos] with [skip]
    characters of the previous match still to pass over. A position at which
    no group matches is stepped over. No group of the pattern below matches
    the empty string ([match_groups_pattern_nil], [match_groups_pattern]), so
    nothing is found at the end of the input and the engine's rules for
    empty matches play no part. *)
Fixpoint finditer_from (groups : list (string * regex)) (skip : nat) (pos : Z)
    (s : str) : list Match :=
  match s with
  | [] => []
  | _ :: s' =>
      match skip with
      | S k => finditer_from groups k (pos + 1) s'
      | O =>
          match match_groups groups s with
          | Some (name, n) =>
              {| lastgroup := name; group := firstn n s; start := pos |}
                :: finditer_from groups (pred n) (pos + 1) s'
          | None => finditer_from groups 0 (pos + 1) s'
          end
      end
  end.

Definition finditer (groups : list (string * regex)) (s : str) : list Match :=
  finditer_from groups 0 0 s.

(** The character sets of the pattern. *)
Definition set_A_Za_z (c : char) : bool := in_range 65 90 c || in_range 97 122 c.
Definition set_parens (c : char) : bool := (c =? 40) || (c =? 41).
(** [.] without DOTALL: anything but a newline. *)
Definition set_dot (c : char) : bool := negb (c =? 10).

(** ** get_all_tokens *)

Definition create_token_spec : list (string * regex) :=
  let op_pattern :=
    join_alt (map (fun o => Lit (input_form (Operator.value o))) Operator.members) in
  [ ("SYMBOL"%string, Class set_A_Za_z);
    ("OPERATOR"%string, op_pattern);
    ("PAREN"%string, Class set_parens);
    ("SKIP"%string, Plus isspace_char);
    ("MISMATCH"%string, Class set_dot) ].

Definition pattern : list (string * regex) := create_token_spec.

(** One turn of the [for] loop. *)
Inductive turn :=
| Emit (t : Token)       (* yield t *)
| Pass                   (* pass *)
| Throw (e : exn).       (* raise e *)

Section Scanner.
Variable ucd : UCD.

(** The body of the loop, the [match mat.lastgroup] statement. *)
Definition body (mat : Match) : turn :=
  if String.eqb (lastgroup mat) "SYMBOL" then
    match Symbol.from_letter ucd (group mat) with
    | Ok sym => Emit (SymbolToken sym (start mat))
    | Raised e => Throw e
    end
  else if String.eqb (lastgroup mat) "OPERATOR" then
    match Operator.from_input_form (group mat) with
    | Ok op => Emit (OperatorToken op (start mat))
    | Raised (ValueError _) => Throw RuntimeError
    | Raised e => Throw e
    end
  else if String.eqb (lastgroup mat) "PAREN" then
    if str_eqb (group mat) (py "(") then Emit (LeftParenToken (start mat))
    else if str_eqb (group mat) (py ")") then Emit (RightParenToken (start mat))
    else Throw RuntimeError
  else if String.eqb (lastgroup mat) "SKIP" then Pass
  else if String.eqb (lastgroup mat) "MISMATCH" then
    Throw (LexicalAnalysisFailedError (start mat + 1) (group mat))
  else Throw RuntimeError.

(** The [for] loop over the matches: it ends at the first [raise]. *)
Fixpoint for_each (mats : list Match) : Gen :=
  match mats with
  | [] => StopIteration
  | mat :: mats' =>
      match body mat with
      | Emit t => Yield t (for_each mats')
      | Pass => for_each mats'
      | Throw e => Raise e
      end
  end.

Definition get_all_tokens (input_str : str) : Gen :=
  for_each (finditer pattern input_str).
End Scanner.

(** ** The scanner, one character at a time

    The dispatch on the class of the next character that the pattern and the
    loop body amount to ([get_all_tokens_scan] proves it); the classes are
    tried in the order of the groups. *)

Definition is_operator_glyph (c : char) : bool :=
  existsb (fun o => str_eqb (input_form (Operator.value o)) [c]) Operator.members.

(** The characters that some group other than MISMATCH matches. *)
Definition recognised (c : char) : bool :=
  set_A_Za_z c || is_operator_glyph c || set_parens c || isspace_char c.

(** The number in [0, 25] of an ASCII letter, whatever its case. *)
Definition letter_number (c : char) : Z :=
  if c <=? 90 then c - 65 else c - 97.

Definition scan_char (c : char) (pos : Z) : turn :=
  if set_A_Za_z c then Emit (SymbolToken (letter_number c) pos)
  else match Operator.from_input_form [c] with
       | Ok op => Emit (OperatorToken op pos)
       | Raised _ =>
           if c =? 40 then Emit (LeftParenToken pos)
           else if c =? 41 then Emit (RightParenToken pos)
           else if isspace_char c then Pass
           else Throw (LexicalAnalysisFailedError (pos + 1) [c])
       end.

Fixpoint scan (pos : Z) (s : str) : Gen :=
  match s with
  | [] => StopIteration
  | c :: s' =>
      match scan_char c pos with
      | Emit t => Yield t (scan (pos + 1) s')
      | Pass => scan (pos + 1) s'
      | Throw e => Raise e
      end
  end.

(** The text of the input that a token stands for begins at its position. *)
Definition token_at (ucd : UCD) (s : str) (t : Token) : Prop :=
  match t with
  | SymbolToken sym p =>
      exists c, nth_error s (Z.to_nat p) = Some c
                /\ set_A_Za_z c = true
                /\ Symbol.from_letter ucd [c] = Ok sym
  | OperatorToken op p =>
      firstn (length (input_form (Operator.value op))) (skipn (Z.to_nat p) s)
        = input_form (Operator.value op)
  | LeftParenToken p => nth_error s (Z.to_nat p) = Some 40
  | RightParenToken p => nth_error s (Z.to_nat p) = Some 41
  end.

(** Strictly increasing integers. *)
Fixpoint increasing (l : list Z) : Prop :=
  match l with
  | [] => True
  | x :: l' => match l' with
               | [] => True
               | y :: _ => x < y
               end /\ increasing l'
  end.

Definition zrange (lo : Z) (n : nat) : list Z :=
  map (fun k => lo + Z.of_nat k) (seq 0 n).

(** [Symbol.from_letter] gives a one-character string the number of its
    letter; a check to run over a block of code points. *)
Definition from_letter_is (ucd : UCD) (c : char) : bool :=
  match Symbol.from_letter ucd [c] with
  | Ok sym => sym =? letter_number c
  | Raised _ => false
  end.

(** [str(Symbol.from_letter(c))] is [c.upper()], for a one-character [c]. *)
Definition roundtrip_is (ucd : UCD) (c : char) : bool :=
  match Symbol.from_letter ucd [c] with
  | Ok sym =>
      match Symbol.to_str sym with
      | Ok text => str_eqb text (upper ucd [c])
      | Raised _ => false
      end
  | Raised _ => false
  end.

(** The ASCII digits and the ASCII punctuation ([string.digits] and
    [string.punctuation]). *)
Definition is_digit (c : char) : bool := in_range 48 57 c.

Definition is_punctuation (c : char) : bool :=
  in_range 33 47 c || in_range 58 64 c || in_range 91 96 c || in_range 123 126 c.

(** ** The printed forms

    [repr] of an [int] is its decimal numeral, with a minus sign when it is
    negative. CPython refuses the conversion with a ValueError when the
    numeral is longer than 640 characters and has more digits than the
    limit of the interpreter, [max_str_digits] below: 4300 unless it is set
    otherwise, and 0 for no limit. *)
Inductive printed :=
| Repr (text : str)
| DigitLimitExceeded.   (* ValueError: exceeds the limit for integer string conversion *)

Definition numeral (n : Z) : str :=
  py (DecimalString.NilZero.string_of_int (Z.to_int n)).

(** The [name] of an enum member. *)
Definition Operator_name (self : Operator.t) : str :=
  match self with
  | Operator.NEG => py "NEG"
  | Operator.CONJ => py "CONJ"
  | Operator.DISJ => py "DISJ"
  | Operator.MAT_COND => py "MAT_COND"
  | Operator.BICOND => py "BICOND"
  end.

(** [Operator.__repr__] *)
Definition Operator_repr (self : Operator.t) : str :=
  py "Operator." ++ Operator_name self.

Section Repr.
Variable max_str_digits : Z.

Definition int_repr (n : Z) : printed :=
  let strlen := len (numeral n) in
  let strlen_nosign := if n <? 0 then strlen - 1 else strlen in
  if (640 <? strlen) && (0 <? max_str_digits)
     && (max_str_digits <? strlen_nosign)
  then DigitLimitExceeded
  else Repr (numeral n).

(** [Symbol.__repr__], the f-string ['Symbol({int(self)!r})']. *)
Definition Symbol_repr (self : Symbol.t) : printed :=
  match int_repr self with
  | Repr digits => Repr (py "Symbol(" ++ digits ++ py ")")
  | DigitLimitExceeded => DigitLimitExceeded
  end.

(** The [__repr__] that [@dataclass] gives [AbstractToken] and that the four
    token classes inherit: the name of the class of the object and the
    field [value]; [position] is declared with [field(repr=False)]. *)
Definition Token_repr (t : Token) : printed :=
  match t with
  | SymbolToken v _ =>
      match Symbol_repr v with
      | Repr text => Repr (py "SymbolToken(value=" ++ text ++ py ")")
      | DigitLimitExceeded => DigitLimitExceeded
      end
  | OperatorToken v _ =>
      Repr (py "OperatorToken(value=" ++ Operator_repr v ++ py ")")
  | LeftParenToken _ => Repr (py "LeftParenToken(value=None)")
  | RightParenToken _ => Repr (py "RightParenToken(value=None)")
  end.
End Repr.

(** A token with its position put to 0: what is left of it when the
    position is disregarded. *)
Definition unplaced (t : Token) : Token :=
  match t with
  | SymbolToken v _ => SymbolToken v 0
  | OperatorToken v _ => OperatorToken v 0
  | LeftParenToken _ => LeftParenToken 0
  | RightParenToken _ => RightParenToken 0
  end.

(** ** The read-print loop

    [list(g)] for a generator [g]: the list of all it yields, or the
    exception that ends it, in which case what it has yielded is lost. *)
Fixpoint list_of (g : Gen) : result (list Token) :=
  match g with
  | StopIteration => Ok []
  | Yield t rest =>
      match list_of rest with
      | Ok toks => Ok (t :: toks)
      | Raised e => Raised e
      end
  | Raise e => Raised e
  end.

(** What the loop writes: the prompt of [input], the token list handed to
    [pprint.pprint], or the exception handed to [print]. *)
Inductive output :=
| Prompt
| PPrint (toks : list Token)
| Print (e : exn).

Section Main.
Variable ucd : UCD.

(** The exceptions that [input], [pprint.pprint] and [print] raise of
    themselves, EOFError apart: KeyboardInterrupt, OSError,
    UnicodeEncodeError when the output cannot encode the text, and so on. *)
Variable io_error : Type.

(** What a call of [input] does. *)
Inductive input_outcome :=
| Returns (input_str : str)
| InputRaises (e : io_error).

(** How the loop ends: by the [break] on EOFError, or by an exception that
    nothing catches, raised by an input or output call or come out of the
    [try] statement. *)
Inductive ending :=
| Break
| UncaughtIO (e : io_error)
| Uncaught (e : exn).

(** Whether [pprint.pprint] or [print] raises, given what has been written
    so far and what is to be written. *)
Variable write : list output -> output -> option io_error.

(** The [while True] loop under [if __name__ == '__main__']. [stdin] holds
    what the calls of [input] do before one raises EOFError, [written] what
    has been written so far. The result is all that is written, and how
    the loop ends. A call that raises is not counted as written. *)
Fixpoint main (written : list output) (stdin : list input_outcome)
  : list output * ending :=
  match stdin with
  | [] => (written ++ [Prompt], Break)
  | InputRaises e :: _ => (written, UncaughtIO e)
  | Returns input_str :: stdin' =>
      let written := written ++ [Prompt] in
      match list_of (get_all_tokens ucd input_str) with
      | Ok toks =>
          match write written (PPrint toks) with
          | None => main (written ++ [PPrint toks]) stdin'
          | Some e => (written, UncaughtIO e)
          end
      | Raised (LexicalAnalysisFailedError column text) =>
          let e := LexicalAnalysisFailedError column text in
          match write written (Print e) with
          | None => main (written ++ [Print e]) stdin'
          | Some e' => (written, UncaughtIO e')
          end
      | Raised e => (written, Uncaught e)
      end
  end.
End Main.

(** ** Notions for the properties of the scanner *)

(** The longest prefix of recognised characters. *)
Fixpoint recognised_prefix (s : str) : str :=
  match s with
  | c :: s' => if recognised c then c :: recognised_prefix s' else []
  | [] => []
  end.

(** The offsets of the characters of [s] that are no whitespace, [s]
    beginning at offset [pos]. *)
Fixpoint nonspace_offsets (pos : Z) (s : str) : list Z :=
  match s with
  | c :: s' =>
      if isspace_char c then nonspace_offsets (pos + 1) s'
      else pos :: nonspace_offsets (pos + 1) s'
  | [] => []
  end.

(** A token, and a trace, moved [k] characters to the right. *)
Definition shift_token (k : Z) (t : Token) : Token :=
  match t with
  | SymbolToken v p => SymbolToken v (p + k)
  | OperatorToken v p => OperatorToken v (p + k)
  | LeftParenToken p => LeftParenToken (p + k)
  | RightParenToken p => RightParenToken (p + k)
  end.

Fixpoint shift_gen (k : Z) (g : Gen) : Gen :=
  match g with
  | StopIteration => StopIteration
  | Yield t rest => Yield (shift_token k t) (shift_gen k rest)
  | Raise (LexicalAnalysisFailedError column text) =>
      Raise (LexicalAnalysisFailedError (column + k) text)
  | Raise e => Raise e
  end.

(** The matches lie end to end from offset [pos] on. *)
Fixpoint contiguous (pos : Z) (mats : list Match) : Prop :=
  match mats with
  | [] => True
  | mat :: mats' =>
      start mat = pos /\ contiguous (pos + len (group mat)) mats'
  end.

(** Checks to run over a block of code points: what [Symbol.from_letter]
    does on a one-character string, and the way back from [Symbol.to_str]. *)
Definition from_letter_latin1 (c : char) : result Symbol.t :=
  if set_A_Za_z c then Ok (letter_number c)
  else if latin1_isalpha c then Ok (-1)
  else Raised (ValueError NotALetter).

Definition result_eqb (a b : result Symbol.t) : bool :=
  match a, b with
  | Ok x, Ok y => x =? y
  | Raised (ValueError NotALetter), Raised (ValueError NotALetter) => true
  | _, _ => false
  end.

Definition from_letter_latin1_is (ucd : UCD) (c : char) : bool :=
  result_eqb (Symbol.from_letter ucd [c]) (from_letter_latin1 c).

Definition to_str_back_is (ucd : UCD) (n : Z) : bool :=
  match Symbol.to_str n with
  | Ok text =>
      str_eqb text [65 + n] && result_eqb (Symbol.from_letter ucd text) (Ok n)
  | Raised _ => false
  end.

(** * Properties *)

(** ** Characters and strings *)

Lemma in_range_spec lo hi c : in_range lo hi c = true <-> lo <= c <= hi.
Proof. unfold in_range. rewrite andb_true_iff, !Z.leb_le. tauto. Qed.

Lemma In_zrange lo n c :
  lo <= c < lo + Z.of_nat n -> In c (zrange lo n).
Proof.
  intros H. unfold zrange. apply in_map_iff.
  exists (Z.to_nat (c - lo)). split; [lia|].
  apply in_seq. lia.
Qed.

(** A property checked on every code point of a block holds on the block. *)
Lemma forall_zrange (P : char -> bool) lo n :
  forallb P (zrange lo n) = true ->
  forall c, lo <= c < lo + Z.of_nat n -> P c = true.
Proof.
  intros H c Hc. rewrite forallb_forall in H. apply H, In_zrange, Hc.
Qed.

Lemma str_eqb_eq a b : str_eqb a b = true <-> a = b.
Proof.
  revert b. induction a as [|x a IH]; intros [|y b]; simpl; split;
    try congruence; try discriminate.
  - rewrite andb_true_iff, Z.eqb_eq, IH. intros [-> ->]. reflexivity.
  - intros E. injection E as -> ->. rewrite Z.eqb_refl, (proj2 (IH b)); auto.
Qed.

Lemma set_A_Za_z_spec c :
  set_A_Za_z c = true <-> 65 <= c <= 90 \/ 97 <= c <= 122.
Proof. unfold set_A_Za_z. rewrite orb_true_iff, !in_range_spec. tauto. Qed.

(** ** Symbol *)

(** [from_letter] on an ASCII letter is the number of the letter. *)
Lemma from_letter_ascii ucd c :
  set_A_Za_z c = true ->
  Symbol.from_letter ucd [c] = Ok (letter_number c).
Proof.
  intros H. apply set_A_Za_z_spec in H.
  assert (E : from_letter_is ucd c = true).
  { destruct H as [H|H].
    - apply (forall_zrange (from_letter_is ucd) 65 26); [vm_compute; reflexivity | lia].
    - apply (forall_zrange (from_letter_is ucd) 97 26); [vm_compute; reflexivity | lia]. }
  unfold from_letter_is in E.
  destruct (Symbol.from_letter ucd [c]) as [sym|e]; [|discriminate].
  apply Z.eqb_eq in E. now subst.
Qed.

Lemma letter_number_bounds c :
  set_A_Za_z c = true -> 0 <= letter_number c <= 25.
Proof.
  intros H. apply set_A_Za_z_spec in H. unfold letter_number.
  destruct (Z.leb_spec c 90); lia.
Qed.

(** ** The pattern *)

Lemma newline_is_space c : set_dot c = false -> isspace_char c = true.
Proof.
  unfold set_dot. rewrite negb_false_iff, Z.eqb_eq. intros ->. reflexivity.
Qed.

Local Opaque Z.eqb.

Lemma is_operator_glyph_spec c :
  is_operator_glyph c =
    (c =? 33) || ((c =? 38) || ((c =? 124) || ((c =? 126) || (c =? 61)))).
Proof.
  unfold is_operator_glyph. cbn.
  rewrite !andb_true_r, !(Z.eqb_sym _ c), orb_false_r. reflexivity.
Qed.

(** No group matches the empty string, so no match is found at the end of
    the input. *)
Lemma match_groups_pattern_nil : match_groups pattern [] = None.
Proof. reflexivity. Qed.

(** The group that matches at a character, and how much it matches. *)
Lemma match_groups_pattern c s :
  match_groups pattern (c :: s) =
    if set_A_Za_z c then Some ("SYMBOL"%string, 1%nat)
    else if is_operator_glyph c then Some ("OPERATOR"%string, 1%nat)
    else if set_parens c then Some ("PAREN"%string, 1%nat)
    else if isspace_char c then Some ("SKIP"%string, S (span isspace_char s))
    else Some ("MISMATCH"%string, 1%nat).
Proof.
  unfold pattern, create_token_spec. rewrite is_operator_glyph_spec. cbn.
  destruct (set_A_Za_z c); [reflexivity|].
  rewrite !andb_true_r.
  destruct (c =? 33); [reflexivity|].
  destruct (c =? 38); [reflexivity|].
  destruct (c =? 124); [reflexivity|].
  destruct (c =? 126); [reflexivity|].
  destruct (c =? 61); [reflexivity|]. cbn.
  destruct (set_parens c); [reflexivity|].
  destruct (isspace_char c) eqn:Hs; [reflexivity|].
  destruct (set_dot c) eqn:Hd; [reflexivity|].
  apply newline_is_space in Hd. congruence.
Qed.

Local Transparent Z.eqb.

Lemma isspace_char_spec c :
  isspace_char c = true <->
  9 <= c <= 13 \/ 28 <= c <= 32 \/ c = 133 \/ c = 160 \/ c = 5760
  \/ 8192 <= c <= 8202 \/ c = 8232 \/ c = 8233 \/ c = 8239 \/ c = 8287
  \/ c = 12288.
Proof.
  unfold isspace_char.
  rewrite !orb_true_iff, !in_range_spec, !Z.eqb_eq. tauto.
Qed.

Lemma set_parens_spec c : set_parens c = true <-> c = 40 \/ c = 41.
Proof. unfold set_parens. rewrite orb_true_iff, !Z.eqb_eq. tauto. Qed.

Lemma is_operator_glyph_iff c :
  is_operator_glyph c = true <->
  c = 33 \/ c = 38 \/ c = 124 \/ c = 126 \/ c = 61.
Proof.
  rewrite is_operator_glyph_spec, !orb_true_iff, !Z.eqb_eq. tauto.
Qed.

Lemma not_true_false b : b = false <-> ~ b = true.
Proof. destruct b; split; congruence. Qed.

(** The four classes of recognised characters are pairwise disjoint. *)
Lemma space_not_token c :
  isspace_char c = true ->
  set_A_Za_z c = false /\ is_operator_glyph c = false /\ set_parens c = false.
Proof.
  rewrite !not_true_false, isspace_char_spec, set_A_Za_z_spec,
    is_operator_glyph_iff, set_parens_spec. lia.
Qed.

(** ** Operator *)

Lemma lookup_none ops form :
  existsb (fun o => str_eqb (input_form (Operator.value o)) form) ops = false ->
  Operator.lookup ops form = Raised (ValueError (NoOperatorFor form)).
Proof.
  induction ops as [|op ops IH]; simpl; [reflexivity|].
  rewrite orb_false_iff. intros [-> H]. auto.
Qed.

Lemma lookup_some ops form :
  existsb (fun o => str_eqb (input_form (Operator.value o)) form) ops = true ->
  exists op, Operator.lookup ops form = Ok op
             /\ In op ops /\ input_form (Operator.value op) = form.
Proof.
  induction ops as [|op ops IH]; simpl; [discriminate|].
  destruct (str_eqb (input_form (Operator.value op)) form) eqn:E.
  - intros _. exists op. apply str_eqb_eq in E. auto.
  - simpl. intros H. destruct (IH H) as (op' & ? & ? & ?). eauto.
Qed.

Lemma from_input_form_glyph c :
  is_operator_glyph c = true ->
  exists op, Operator.from_input_form [c] = Ok op
             /\ input_form (Operator.value op) = [c].
Proof.
  intros H. destruct (lookup_some _ _ H) as (op & ? & _ & ?). eauto.
Qed.

Lemma from_input_form_other c :
  is_operator_glyph c = false ->
  Operator.from_input_form [c] = Raised (ValueError (NoOperatorFor [c])).
Proof. apply lookup_none. Qed.

(** ** The loop body against the character dispatch *)

Lemma scan_char_space c pos : isspace_char c = true -> scan_char c pos = Pass.
Proof.
  intros H. destruct (space_not_token c H) as (Hl & Hg & Hp).
  unfold scan_char. rewrite Hl, (from_input_form_other c Hg), H.
  apply not_true_false in Hp. rewrite set_parens_spec in Hp.
  destruct (Z.eqb_spec c 40); [lia|]. destruct (Z.eqb_spec c 41); [lia|].
  reflexivity.
Qed.

Lemma body_scan_char ucd c s pos name n :
  match_groups pattern (c :: s) = Some (name, n) ->
  body ucd {| lastgroup := name; group := firstn n (c :: s); start := pos |}
    = scan_char c pos
  /\ (pred n <= span isspace_char s)%nat.
Proof.
  rewrite match_groups_pattern. unfold body, scan_char. simpl lastgroup.
  simpl group. simpl start.
  destruct (set_A_Za_z c) eqn:Hl.
  { intros E. injection E as <- <-. simpl.
    rewrite (from_letter_ascii ucd c Hl). split; [reflexivity | lia]. }
  destruct (is_operator_glyph c) eqn:Hg.
  { intros E. injection E as <- <-. simpl.
    destruct (from_input_form_glyph c Hg) as (op & -> & _).
    split; [reflexivity | lia]. }
  rewrite (from_input_form_other c Hg).
  destruct (set_parens c) eqn:Hp.
  { intros E. injection E as <- <-. simpl. rewrite !andb_true_r.
    apply set_parens_spec in Hp.
    destruct (Z.eqb_spec c 40); [split; [reflexivity | lia]|].
    destruct (Z.eqb_spec c 41); [split; [reflexivity | lia]|]. lia. }
  apply not_true_false in Hp. rewrite set_parens_spec in Hp.
  destruct (Z.eqb_spec c 40); [lia|]. destruct (Z.eqb_spec c 41); [lia|].
  destruct (isspace_char c) eqn:Hs.
  { intros E. injection E as <- <-. simpl. split; [reflexivity | lia]. }
  intros E. injection E as <- <-. simpl. split; [reflexivity | lia].
Qed.

Lemma for_each_cons ucd mat mats :
  for_each ucd (mat :: mats) =
    match body ucd mat with
    | Emit t => Yield t (for_each ucd mats)
    | Pass => for_each ucd mats
    | Throw e => Raise e
    end.
Proof. reflexivity. Qed.

Lemma finditer_from_match groups pos c s :
  finditer_from groups 0 pos (c :: s) =
    match match_groups groups (c :: s) with
    | Some (name, n) =>
        {| lastgroup := name; group := firstn n (c :: s); start := pos |}
          :: finditer_from groups (pred n) (pos + 1) s
    | None => finditer_from groups 0 (pos + 1) s
    end.
Proof. reflexivity. Qed.

(** The regex-driven loop is the character dispatch. *)
Lemma for_each_finditer ucd s :
  forall skip pos, (skip <= span isspace_char s)%nat ->
  for_each ucd (finditer_from pattern skip pos s) = scan pos s.
Proof.
  induction s as [|c s IH]; intros skip pos Hskip; [reflexivity|].
  destruct skip as [|k].
  - rewrite finditer_from_match.
    destruct (match_groups pattern (c :: s)) as [[name n]|] eqn:E.
    + destruct (body_scan_char ucd c s pos name n E) as [Hb Hn].
      rewrite for_each_cons, Hb. simpl scan. rewrite (IH _ _ Hn).
      reflexivity.
    + rewrite match_groups_pattern in E.
      destruct (set_A_Za_z c), (is_operator_glyph c), (set_parens c),
        (isspace_char c); discriminate.
  - simpl in Hskip. destruct (isspace_char c) eqn:Hs; [|lia].
    simpl. rewrite (scan_char_space c pos Hs). apply IH. lia.
Qed.

Theorem get_all_tokens_scan ucd s : get_all_tokens ucd s = scan 0 s.
Proof. apply for_each_finditer. lia. Qed.

(** ** The character dispatch *)

Lemma recognised_false c :
  recognised c = false <->
  set_A_Za_z c = false /\ is_operator_glyph c = false
  /\ set_parens c = false /\ isspace_char c = false.
Proof. unfold recognised. rewrite !orb_false_iff. tauto. Qed.

Lemma scan_char_unrecognised c pos :
  recognised c = false ->
  scan_char c pos = Throw (LexicalAnalysisFailedError (pos + 1) [c]).
Proof.
  rewrite recognised_false. intros (Hl & Hg & Hp & Hs).
  unfold scan_char. rewrite Hl, (from_input_form_other c Hg), Hs.
  apply not_true_false in Hp. rewrite set_parens_spec in Hp.
  destruct (Z.eqb_spec c 40); [lia|]. destruct (Z.eqb_spec c 41); [lia|].
  reflexivity.
Qed.

(** The only exception of the dispatch is the lexical error, and only at
    an unrecognised character. *)
Lemma scan_char_throw c pos e :
  scan_char c pos = Throw e ->
  recognised c = false /\ e = LexicalAnalysisFailedError (pos + 1) [c].
Proof.
  destruct (recognised c) eqn:Hr.
  - unfold recognised in Hr. unfold scan_char.
    destruct (set_A_Za_z c) eqn:Hl; [discriminate|].
    destruct (is_operator_glyph c) eqn:Hg.
    { destruct (from_input_form_glyph c Hg) as (op & -> & _). discriminate. }
    rewrite (from_input_form_other c Hg).
    destruct (Z.eqb_spec c 40); [discriminate|].
    destruct (Z.eqb_spec c 41); [discriminate|].
    destruct (isspace_char c) eqn:Hs; [discriminate|].
    simpl in Hr. rewrite orb_false_r in Hr. apply set_parens_spec in Hr. lia.
  - rewrite (scan_char_unrecognised c pos Hr). intros E.
    injection E as <-. auto.
Qed.

(** ** Generators *)

Lemma raised_yields toks g : raised (yields toks g) = raised g.
Proof. induction toks; simpl; auto. Qed.

Lemma yielded_yields_stop toks : yielded (yields toks StopIteration) = toks.
Proof. induction toks; simpl; congruence. Qed.

Lemma yielded_yields_raise toks e : yielded (yields toks (Raise e)) = toks.
Proof. induction toks; simpl; congruence. Qed.

Lemma len_cons c s : len (c :: s) = len s + 1.
Proof. unfold len. simpl length. lia. Qed.

Lemma len_app a b : len (a ++ b) = len a + len b.
Proof. unfold len. rewrite length_app. lia. Qed.

Lemma len_nonneg s : 0 <= len s.
Proof. unfold len. lia. Qed.

(** ** The scan of a recognised prefix *)

(** Over recognised characters the scan raises nothing, and what follows
    the prefix is scanned from the offset at which the prefix ends. *)
Lemma scan_prefix pre :
  forall pos rest,
  forallb recognised pre = true ->
  scan pos pre = yields (yielded (scan pos pre)) StopIteration
  /\ scan pos (pre ++ rest)
     = yields (yielded (scan pos pre)) (scan (pos + len pre) rest).
Proof.
  induction pre as [|c pre IH]; intros pos rest H.
  - simpl. unfold len. simpl. rewrite Z.add_0_r. auto.
  - simpl in H. apply andb_true_iff in H. destruct H as [Hc Hpre].
    destruct (IH (pos + 1) rest Hpre) as [IH1 IH2].
    rewrite len_cons, (Z.add_comm (len pre) 1), Z.add_assoc.
    simpl. destruct (scan_char c pos) as [t| |e] eqn:E.
    + simpl. rewrite <- IH1, <- IH2. auto.
    + auto.
    + apply scan_char_throw in E. destruct E as [E _]. congruence.
Qed.

Lemma scan_unrecognised c rest pos :
  recognised c = false ->
  scan pos (c :: rest) = Raise (LexicalAnalysisFailedError (pos + 1) [c]).
Proof. intros H. simpl. rewrite (scan_char_unrecognised c pos H). reflexivity. Qed.

(** A string is recognised throughout, or splits at its first
    unrecognised character. *)
Lemma first_unrecognised s :
  forallb recognised s = true
  \/ exists pre c rest,
       s = pre ++ c :: rest
       /\ forallb recognised pre = true /\ recognised c = false.
Proof.
  induction s as [|c s IH]; [left; reflexivity|].
  destruct (recognised c) eqn:Hc.
  - destruct IH as [IH | (pre & d & rest & -> & Hpre & Hd)].
    + left. simpl. rewrite Hc. exact IH.
    + right. exists (c :: pre), d, rest. simpl. rewrite Hc. auto.
  - right. exists [], c, s. auto.
Qed.

(** The trace on an input whose first unrecognised character is [c]. *)
Lemma get_all_tokens_error ucd pre c rest :
  forallb recognised pre = true ->
  recognised c = false ->
  get_all_tokens ucd pre = yields (yielded (get_all_tokens ucd pre)) StopIteration
  /\ get_all_tokens ucd (pre ++ c :: rest)
     = yields (yielded (get_all_tokens ucd pre))
         (Raise (LexicalAnalysisFailedError (len pre + 1) [c])).
Proof.
  intros Hpre Hc. rewrite !get_all_tokens_scan.
  destruct (scan_prefix pre 0 (c :: rest) Hpre) as [H1 H2].
  split; [exact H1|].
  rewrite H2, (scan_unrecognised c rest _ Hc). reflexivity.
Qed.

Lemma get_all_tokens_clean ucd s :
  forallb recognised s = true ->
  get_all_tokens ucd s = yields (yielded (get_all_tokens ucd s)) StopIteration.
Proof.
  intros H. rewrite get_all_tokens_scan.
  exact (proj1 (scan_prefix s 0 [] H)).
Qed.

(** ** Positions *)

Lemma increasing_cons x l :
  Forall (fun y => x < y) l -> increasing l -> increasing (x :: l).
Proof.
  intros H Hl. simpl. split; [|exact Hl].
  destruct l as [|y l]; [exact I|]. now inversion H.
Qed.

(** A token emitted for [c] at [pos] is placed at [pos] and stands for [c]. *)
Lemma scan_char_emit ucd c pos t :
  scan_char c pos = Emit t ->
  position t = pos
  /\ match t with
     | SymbolToken sym _ =>
         set_A_Za_z c = true /\ Symbol.from_letter ucd [c] = Ok sym
     | OperatorToken op _ => input_form (Operator.value op) = [c]
     | LeftParenToken _ => c = 40
     | RightParenToken _ => c = 41
     end.
Proof.
  unfold scan_char. destruct (set_A_Za_z c) eqn:Hl.
  { intros E. injection E as <-. simpl.
    auto using from_letter_ascii. }
  destruct (is_operator_glyph c) eqn:Hg.
  { destruct (from_input_form_glyph c Hg) as (op & -> & Hop).
    intros E. injection E as <-. simpl. auto. }
  rewrite (from_input_form_other c Hg).
  destruct (Z.eqb_spec c 40). { intros E. injection E as <-. simpl. auto. }
  destruct (Z.eqb_spec c 41). { intros E. injection E as <-. simpl. auto. }
  destruct (isspace_char c); discriminate.
Qed.

Lemma nth_error_at (pre : str) c s :
  nth_error (pre ++ c :: s) (Z.to_nat (len pre)) = Some c.
Proof.
  unfold len. rewrite Nat2Z.id, nth_error_app2, Nat.sub_diag; auto.
Qed.

Lemma skipn_at (pre : str) s :
  skipn (Z.to_nat (len pre)) (pre ++ s) = s.
Proof.
  unfold len. rewrite Nat2Z.id, skipn_app, Nat.sub_diag, skipn_all. reflexivity.
Qed.

(** Every token of the scan of [s], begun at the end of [pre], lies within
    [s] at the offset of the text it stands for, and the offsets increase. *)
Lemma scan_positions ucd s :
  forall pre,
  Forall (fun t => len pre <= position t < len pre + len s
                   /\ token_at ucd (pre ++ s) t)
         (yielded (scan (len pre) s))
  /\ increasing (map position (yielded (scan (len pre) s))).
Proof.
  induction s as [|c s IH]; intros pre; [simpl; auto|].
  destruct (IH (pre ++ [c])) as [IHf IHi].
  rewrite len_app, <- app_assoc in IHf. rewrite len_app in IHi.
  change (len [c]) with 1 in *. simpl app in IHf.
  assert (Hf : Forall (fun t => len pre + 1 <= position t < len pre + len (c :: s)
                                /\ token_at ucd (pre ++ c :: s) t)
                 (yielded (scan (len pre + 1) s))).
  { eapply Forall_impl; [|exact IHf]. intros t [Hp Ht]. rewrite len_cons.
    split; [lia | exact Ht]. }
  simpl scan. destruct (scan_char c (len pre)) as [t| |e] eqn:E.
  - apply (scan_char_emit ucd) in E. destruct E as [Hp Ht]. simpl. split.
    + constructor.
      * pose proof (len_nonneg s). rewrite Hp, len_cons. split; [lia|].
        destruct t as [sym p|op p|p|p]; simpl in Hp; subst p; simpl.
        -- exists c. split; [apply nth_error_at | exact Ht].
        -- rewrite skipn_at, Ht. reflexivity.
        -- subst c. apply nth_error_at.
        -- subst c. apply nth_error_at.
      * eapply Forall_impl; [|exact Hf]. simpl. intros t' [Hp' Ht'].
        split; [lia | exact Ht'].
    + apply increasing_cons; [|exact IHi].
      apply Forall_map. eapply Forall_impl; [|exact Hf]. simpl. lia.
  - split; [|exact IHi].
    eapply Forall_impl; [|exact Hf]. simpl. intros t' [Hp' Ht'].
    split; [lia | exact Ht'].
  - simpl. auto.
Qed.

(** ** The matches of the pattern *)

Lemma finditer_from_In mat s :
  forall skip pos,
  In mat (finditer_from pattern skip pos s) ->
  exists c s' n,
    match_groups pattern (c :: s') = Some (lastgroup mat, n)
    /\ group mat = firstn n (c :: s').
Proof.
  induction s as [|c s IH]; intros skip pos H; [destruct H|].
  destruct skip as [|k]; [|exact (IH _ _ H)].
  rewrite finditer_from_match in H.
  destruct (match_groups pattern (c :: s)) as [[name n]|] eqn:E;
    [|exact (IH _ _ H)].
  destruct H as [<- | H]; [|exact (IH _ _ H)].
  exists c, s, n. auto.
Qed.

(** Each match is of one character class, and the loop body treats it as
    the dispatch treats its first character; a SYMBOL match is one ASCII
    letter. *)
Lemma body_of_match ucd mat s :
  In mat (finditer pattern s) ->
  exists c,
    body ucd mat = scan_char c (start mat)
    /\ (lastgroup mat = "SYMBOL"%string ->
        group mat = [c] /\ set_A_Za_z c = true).
Proof.
  intros H. apply finditer_from_In in H. destruct H as (c & s' & n & E & Hg).
  exists c. split.
  - destruct (body_scan_char ucd c s' (start mat) _ _ E) as [Hb _].
    rewrite <- Hg in Hb. destruct mat. exact Hb.
  - intros Hname. rewrite Hname, match_groups_pattern in E.
    destruct (set_A_Za_z c).
    { injection E as <-. auto. }
    destruct (is_operator_glyph c); [discriminate|].
    destruct (set_parens c); [discriminate|].
    destruct (isspace_char c); discriminate.
Qed.

(** ** Symbol.from_letter on and off the ASCII letters *)

Lemma from_letter_not_single ucd letter :
  len letter <> 1 ->
  Symbol.from_letter ucd letter = Raised (ValueError NotSingleCharacter).
Proof.
  intros H. unfold Symbol.from_letter.
  destruct (Z.eqb_spec (len letter) 1); [contradiction | reflexivity].
Qed.

Lemma from_letter_not_alpha ucd c :
  isalpha_char ucd c = false ->
  Symbol.from_letter ucd [c] = Raised (ValueError NotALetter).
Proof.
  intros H. unfold Symbol.from_letter. simpl. rewrite H. reflexivity.
Qed.

(** On the 52 ASCII letters the symbol lies in [0, 25] and is rendered as
    the upper-case letter. *)
Lemma from_letter_roundtrip_ascii ucd c :
  set_A_Za_z c = true ->
  Symbol.from_letter ucd [c] = Ok (letter_number c)
  /\ 0 <= letter_number c <= 25
  /\ Symbol.to_str (letter_number c) = Ok (upper ucd [c]).
Proof.
  intros H. split; [exact (from_letter_ascii ucd c H)|].
  split; [exact (letter_number_bounds c H)|].
  assert (E : roundtrip_is ucd c = true).
  { apply set_A_Za_z_spec in H. destruct H as [H|H].
    - apply (forall_zrange (roundtrip_is ucd) 65 26); [vm_compute; reflexivity | lia].
    - apply (forall_zrange (roundtrip_is ucd) 97 26); [vm_compute; reflexivity | lia]. }
  unfold roundtrip_is in E. rewrite (from_letter_ascii ucd c H) in E.
  destruct (Symbol.to_str (letter_number c)) as [text|]; [|discriminate].
  apply str_eqb_eq in E. now subst.
Qed.

(** The symbols of the capital letters are pairwise distinct and cover
    [0, 25]; a small letter has the symbol of its capital. *)
Lemma letter_number_bijective :
  (forall n, 0 <= n <= 25 ->
     exists c, in_range 65 90 c = true /\ letter_number c = n
               /\ forall d, in_range 65 90 d = true -> letter_number d = n -> d = c)
  /\ (forall c, in_range 97 122 c = true -> letter_number c = letter_number (c - 32)).
Proof.
  split.
  - intros n Hn. exists (n + 65). rewrite in_range_spec. unfold letter_number.
    destruct (Z.leb_spec (n + 65) 90); [|lia].
    repeat split; try lia. intros d Hd. apply in_range_spec in Hd.
    destruct (Z.leb_spec d 90); lia.
  - intros c Hc. apply in_range_spec in Hc. unfold letter_number.
    destruct (Z.leb_spec c 90); [lia|].
    destruct (Z.leb_spec (c - 32) 90); lia.
Qed.

(** ** One token for each character that is no whitespace *)

Lemma scan_char_pass c pos : scan_char c pos = Pass -> isspace_char c = true.
Proof.
  unfold scan_char. destruct (set_A_Za_z c); [discriminate|].
  destruct (Operator.from_input_form [c]); [discriminate|].
  destruct (c =? 40); [discriminate|]. destruct (c =? 41); [discriminate|].
  destruct (isspace_char c); [reflexivity | discriminate].
Qed.

(** What the dispatch does with a character, by its class. *)
Lemma scan_char_cases c pos :
  (isspace_char c = true /\ scan_char c pos = Pass)
  \/ (isspace_char c = false /\ recognised c = true
      /\ exists t, scan_char c pos = Emit t /\ position t = pos)
  \/ (recognised c = false
      /\ scan_char c pos = Throw (LexicalAnalysisFailedError (pos + 1) [c])).
Proof.
  destruct (isspace_char c) eqn:Hs; [left; auto using scan_char_space|].
  right. destruct (recognised c) eqn:Hr;
    [left | right; auto using scan_char_unrecognised].
  repeat split. destruct (scan_char c pos) as [t| |e] eqn:E.
  - exists t. split; [reflexivity|].
    exact (proj1 (scan_char_emit latin1_only c pos t E)).
  - apply scan_char_pass in E. congruence.
  - apply scan_char_throw in E. destruct E. congruence.
Qed.

Lemma scan_offsets s :
  forall pos,
  map position (yielded (scan pos s))
    = nonspace_offsets pos (recognised_prefix s).
Proof.
  induction s as [|c s IH]; intros pos; [reflexivity|].
  simpl scan. simpl recognised_prefix.
  destruct (scan_char_cases c pos)
    as [[Hs ->] | [(Hs & Hr & t & -> & Hp) | [Hr ->]]].
  - assert (Hr : recognised c = true).
    { unfold recognised. rewrite Hs. apply orb_true_r. }
    rewrite Hr. simpl. rewrite Hs. apply IH.
  - rewrite Hr. simpl. rewrite Hs, Hp, IH. reflexivity.
  - rewrite Hr. reflexivity.
Qed.

(** * The scanner's worked examples *)

(** C1. Tokenizing "A&B" yields exactly SymbolToken(A, 0),
    OperatorToken(CONJ, 1), SymbolToken(B, 2), and tokenizing "(P~Q)" yields
    LeftParenToken(0), SymbolToken(P, 1), OperatorToken(MAT_COND, 2),
    SymbolToken(Q, 3), RightParenToken(4); both iterations end normally.
    The symbols 0, 1, 15 and 16 are those that render as A, B, P and Q. *)
Theorem worked_examples_tokens ucd :
  get_all_tokens ucd (py "A&B")
    = yields [SymbolToken 0 0; OperatorToken Operator.CONJ 1; SymbolToken 1 2]
        StopIteration
  /\ get_all_tokens ucd (py "(P~Q)")
    = yields [LeftParenToken 0; SymbolToken 15 1;
              OperatorToken Operator.MAT_COND 2; SymbolToken 16 3;
              RightParenToken 4]
        StopIteration
  /\ map Symbol.to_str [0; 1; 15; 16]
    = [Ok (py "A"); Ok (py "B"); Ok (py "P"); Ok (py "Q")].
Proof. repeat split; vm_compute; reflexivity. Qed.

(** C7. A run of whitespace is one SKIP match that covers the whole run,
    for which the loop body yields nothing, and the scan goes on behind the
    run at its offset in the input. Tokenizing "A  B" yields exactly
    SymbolToken(A, 0), SymbolToken(B, 3); tokenizing "" yields nothing. *)
Theorem whitespace_runs_skipped ucd :
  get_all_tokens ucd (py "A  B")
    = yields [SymbolToken 0 0; SymbolToken 1 3] StopIteration
  /\ get_all_tokens ucd (py "") = StopIteration
  /\ forall c ws rest pos,
       forallb isspace_char (c :: ws) = true ->
       span isspace_char rest = O ->
       let run := {| lastgroup := "SKIP"; group := c :: ws; start := pos |} in
       finditer_from pattern 0 pos ((c :: ws) ++ rest)
         = run :: finditer_from pattern 0 (pos + len (c :: ws)) rest
       /\ body ucd run = Pass.
Proof.
  split; [vm_compute; reflexivity|]. split; [vm_compute; reflexivity|].
  intros c ws rest pos H Hrest run. split; [|reflexivity].
  simpl in H. apply andb_true_iff in H. destruct H as [Hc Hws].
  assert (Hspan : span isspace_char (ws ++ rest) = length ws).
  { clear - Hws Hrest. induction ws as [|w ws IH]; [exact Hrest|].
    simpl in *. apply andb_true_iff in Hws. destruct Hws as [-> Hws].
    f_equal. auto. }
  assert (Hskip : forall l p,
             forallb isspace_char l = true ->
             finditer_from pattern (length l) p (l ++ rest)
               = finditer_from pattern 0 (p + len l) rest).
  { induction l as [|w l IH]; intros p Hl.
    - simpl. unfold len. simpl. now rewrite Z.add_0_r.
    - simpl in Hl. apply andb_true_iff in Hl. destruct Hl as [_ Hl].
      simpl. rewrite (IH _ Hl), len_cons. f_equal. lia. }
  change ((c :: ws) ++ rest) with (c :: ws ++ rest).
  rewrite finditer_from_match, match_groups_pattern.
  destruct (space_not_token c Hc) as (-> & -> & ->). rewrite Hc, Hspan.
  simpl pred. rewrite (Hskip ws _ Hws), len_cons.
  unfold run. f_equal.
  - f_equal. simpl. f_equal. rewrite firstn_app, Nat.sub_diag, firstn_all.
    simpl. apply app_nil_r.
  - f_equal. lia.
Qed.

(** * Errors of the scanner *)

(** C2. Every input either consists of recognised characters only, and then
    the iteration ends normally, or it splits at its first unrecognised
    character [c]: the tokens of the text before [c] are yielded and the
    iteration at once ends in LexicalAnalysisFailedError with the 1-based
    column of [c] and the text [c]; nothing behind [c] is looked at. No
    other exception ends an iteration. "A#B" fails with column 2 and "#". *)
Theorem lexical_error_at_first_unrecognised ucd :
  (forall s,
     (forallb recognised s = true
      /\ get_all_tokens ucd s
         = yields (yielded (get_all_tokens ucd s)) StopIteration)
     \/ exists pre c rest,
          s = pre ++ c :: rest
          /\ forallb recognised pre = true /\ recognised c = false
          /\ get_all_tokens ucd s
             = yields (yielded (get_all_tokens ucd pre))
                 (Raise (LexicalAnalysisFailedError (len pre + 1) [c])))
  /\ get_all_tokens ucd (py "A#B")
     = Yield (SymbolToken 0 0) (Raise (LexicalAnalysisFailedError 2 (py "#"))).
Proof.
  split; [|vm_compute; reflexivity].
  intros s. destruct (first_unrecognised s) as [H | (pre & c & rest & -> & Hpre & Hc)].
  - left. split; [exact H | exact (get_all_tokens_clean ucd s H)].
  - right. exists pre, c, rest. repeat split; auto.
    exact (proj2 (get_all_tokens_error ucd pre c rest Hpre Hc)).
Qed.

(** C3. When the scanner reaches a character (all characters before it are
    recognised) that is no ASCII letter, no operator input form, no
    parenthesis and no whitespace, the iteration ends in
    LexicalAnalysisFailedError at that character. Such are every ASCII
    digit, every ASCII punctuation character other than the five operator
    input forms and the two parentheses, and every character above U+007F
    that the whitespace class does not hold. *)
Theorem unrecognised_character_fails ucd pre c rest :
  forallb recognised pre = true ->
  (set_A_Za_z c = false /\ is_operator_glyph c = false
   /\ set_parens c = false /\ isspace_char c = false)
  \/ is_digit c = true
  \/ (is_punctuation c = true
      /\ is_operator_glyph c = false /\ set_parens c = false)
  \/ (127 < c /\ isspace_char c = false) ->
  raised (get_all_tokens ucd (pre ++ c :: rest))
    = Some (LexicalAnalysisFailedError (len pre + 1) [c]).
Proof.
  intros Hpre Hc.
  assert (Hr : recognised c = false).
  { apply recognised_false. revert Hc. unfold is_digit, is_punctuation.
    rewrite !not_true_false, !orb_true_iff, !in_range_spec, isspace_char_spec,
      set_A_Za_z_spec, is_operator_glyph_iff, set_parens_spec. lia. }
  rewrite (proj2 (get_all_tokens_error ucd pre c rest Hpre Hr)).
  apply raised_yields.
Qed.

(** C8. When the first unrecognised character of the input is at offset
    [k], the generator first yields the tokens of the [k] characters before
    it, one for each of them that is no whitespace, at the offset of that
    character and standing for it, in the order of their positions, and
    only then raises LexicalAnalysisFailedError: what was yielded has been
    handed to the caller when the error comes. *)
Theorem tokens_before_the_error ucd pre c rest :
  forallb recognised pre = true ->
  recognised c = false ->
  exists toks,
    get_all_tokens ucd pre = yields toks StopIteration
    /\ get_all_tokens ucd (pre ++ c :: rest)
       = yields toks (Raise (LexicalAnalysisFailedError (len pre + 1) [c]))
    /\ map position toks = nonspace_offsets 0 pre
    /\ Forall (fun t => 0 <= position t < len pre
                        /\ token_at ucd (pre ++ c :: rest) t) toks
    /\ increasing (map position toks).
Proof.
  intros Hpre Hc. exists (yielded (get_all_tokens ucd pre)).
  destruct (get_all_tokens_error ucd pre c rest Hpre Hc) as [H1 H2].
  split; [exact H1|]. split; [exact H2|].
  split.
  { rewrite get_all_tokens_scan, scan_offsets.
    clear - Hpre. f_equal.
    induction pre as [|d pre IH]; [reflexivity|]. simpl in *.
    apply andb_true_iff in Hpre. destruct Hpre as [-> Hpre].
    f_equal. auto. }
  pose proof (scan_positions ucd (pre ++ c :: rest) []) as [Hf Hi].
  simpl app in Hf. change (len []) with 0 in *.
  rewrite <- get_all_tokens_scan with (ucd := ucd), H2,
    yielded_yields_raise in Hf, Hi.
  split; [|exact Hi].
  pose proof (scan_positions ucd pre []) as [Hf' _].
  change (len []) with 0 in Hf'.
  rewrite <- get_all_tokens_scan with (ucd := ucd) in Hf'.
  rewrite Forall_forall in *. intros t Ht.
  split; [apply (Hf' t Ht) | apply (Hf t Ht)].
Qed.

(** C9. Every SYMBOL match is one ASCII letter, on which
    Symbol.from_letter succeeds; the loop body raises neither ValueError
    nor RuntimeError on any match of the pattern; and an iteration ends
    normally or in LexicalAnalysisFailedError. *)
Theorem only_lexical_errors_surface ucd s :
  (forall mat, In mat (finditer pattern s) ->
     lastgroup mat = "SYMBOL"%string ->
     exists c, group mat = [c] /\ set_A_Za_z c = true
               /\ Symbol.from_letter ucd (group mat) = Ok (letter_number c))
  /\ (forall mat e, In mat (finditer pattern s) ->
        body ucd mat = Throw e ->
        e = LexicalAnalysisFailedError (start mat + 1) (group mat)
        /\ lastgroup mat = "MISMATCH"%string)
  /\ (raised (get_all_tokens ucd s) = None
      \/ exists column c,
           raised (get_all_tokens ucd s)
             = Some (LexicalAnalysisFailedError column [c])).
Proof.
  split; [|split].
  - intros mat Hin Hname.
    destruct (body_of_match ucd mat s Hin) as (c & _ & H).
    destruct (H Hname) as [Hg Hl]. exists c. rewrite Hg.
    auto using from_letter_ascii.
  - intros mat e Hin Hb.
    apply finditer_from_In in Hin. destruct Hin as (c & s' & n & E & Hg).
    destruct (body_scan_char ucd c s' (start mat) _ _ E) as [Hbody _].
    rewrite <- Hg in Hbody. destruct mat as [name g st].
    simpl lastgroup in *. simpl group in *. simpl start in *.
    rewrite Hbody in Hb. apply scan_char_throw in Hb. destruct Hb as [Hr ->].
    apply recognised_false in Hr. destruct Hr as (Hl & Ho & Hp & Hs).
    rewrite match_groups_pattern, Hl, Ho, Hp, Hs in E.
    injection E as <- <-. subst g. auto.
  - destruct (first_unrecognised s) as [H | (pre & c & rest & -> & Hpre & Hc)].
    + left. rewrite (get_all_tokens_clean ucd s H). apply raised_yields.
    + right. exists (len pre + 1), c.
      rewrite (proj2 (get_all_tokens_error ucd pre c rest Hpre Hc)).
      apply raised_yields.
Qed.

(** C10. When the iteration over an input ends normally, every token lies
    at the zero-based offset of the first character of the text it stands
    for, that offset is below the length of the input, and the offsets of
    the tokens strictly increase along the sequence. *)
Theorem positions_are_offsets ucd s toks :
  get_all_tokens ucd s = yields toks StopIteration ->
  Forall (fun t => 0 <= position t < len s /\ token_at ucd s t) toks
  /\ increasing (map position toks).
Proof.
  intros H. pose proof (scan_positions ucd s []) as Hs.
  change (len []) with 0 in Hs. simpl app in Hs.
  rewrite <- get_all_tokens_scan with (ucd := ucd), H, yielded_yields_stop in Hs.
  exact Hs.
Qed.

(** A no-break space (U+00A0) between two letters is whitespace to the
    pattern: it is passed over, and the second letter keeps its offset. *)
Example no_break_space_skipped ucd :
  isspace_char 160 = true
  /\ get_all_tokens ucd [65; 160; 66]
     = yields [SymbolToken 0 0; SymbolToken 1 2] StopIteration.
Proof. split; vm_compute; reflexivity. Qed.

(** * The operator table *)

(** C6. The catalogue has exactly the five operators NEG, CONJ, DISJ,
    MAT_COND and BICOND, in this order, with the triples ("!", U+00AC, 100),
    ("&", U+2227, 90), ("|", U+2228, 80), ("~", U+2192, 70) and
    ("=", U+2194, 60). Operator.from_input_form returns the operator of each
    of the five input forms, and raises its ValueError on every other
    string. *)
Theorem operator_catalogue :
  (forall op, In op Operator.members)
  /\ map (fun op => (op, Operator.value op)) Operator.members
     = [ (Operator.NEG,
          {| input_form := py "!"; actual_form := [172]; priority := 100 |});
         (Operator.CONJ,
          {| input_form := py "&"; actual_form := [8743]; priority := 90 |});
         (Operator.DISJ,
          {| input_form := py "|"; actual_form := [8744]; priority := 80 |});
         (Operator.MAT_COND,
          {| input_form := py "~"; actual_form := [8594]; priority := 70 |});
         (Operator.BICOND,
          {| input_form := py "="; actual_form := [8596]; priority := 60 |}) ]
  /\ map Operator.from_input_form [py "!"; py "&"; py "|"; py "~"; py "="]
     = [ Ok Operator.NEG; Ok Operator.CONJ; Ok Operator.DISJ;
         Ok Operator.MAT_COND; Ok Operator.BICOND ]
  /\ forall form,
       ~ In form [py "!"; py "&"; py "|"; py "~"; py "="] ->
       Operator.from_input_form form = Raised (ValueError (NoOperatorFor form)).
Proof.
  split; [intros []; simpl; tauto|].
  split; [reflexivity|]. split; [reflexivity|].
  intros form H. apply lookup_none.
  unfold Operator.members. cbn [existsb]. rewrite !orb_false_iff.
  repeat split; try reflexivity;
    apply not_true_false; rewrite str_eqb_eq; intros <-; apply H;
    simpl; tauto.
Qed.

(** * The symbol table off the ASCII letters *)

(** C4. Symbol.from_letter accepts the letters U+00E9 and U+00E8 (e with
    acute and with grave accent) and gives both the symbol -1, which is
    outside [0, 25]. *)
Theorem from_letter_outside_range ucd :
  Symbol.from_letter ucd [233] = Ok (-1)
  /\ Symbol.from_letter ucd [232] = Ok (-1)
  /\ ~ 0 <= -1 <= 25.
Proof. repeat split; try (vm_compute; reflexivity). lia. Qed.

(** C5. The one-character string U+00E9, a lower-case letter that is not
    an ASCII letter, is not rejected by Symbol.from_letter: its symbol is
    -1, which renders as "Z", while its upper case is U+00C9. *)
Theorem from_letter_roundtrip_fails ucd :
  isalpha ucd [233] = true
  /\ set_A_Za_z 233 = false
  /\ Symbol.from_letter ucd [233] = Ok (-1)
  /\ Symbol.to_str (-1) = Ok (py "Z")
  /\ upper ucd [233] = [201].
Proof. repeat split; vm_compute; reflexivity. Qed.

(** * Instances *)

Lemma unrecognised_character_fails_witness :
  forallb recognised (py "(P") = true
  /\ 127 < 233
  /\ raised (get_all_tokens latin1_only (py "(P" ++ 233 :: py ")"))
     = Some (LexicalAnalysisFailedError (len (py "(P") + 1) [233]).
Proof.
  split; [reflexivity|]. split; [lia|].
  apply (unrecognised_character_fails latin1_only (py "(P") 233 (py ")"));
    [reflexivity | right; right; right; split; [lia | reflexivity]].
Defined.

Lemma tokens_before_the_error_witness :
  get_all_tokens latin1_only (py "A & B " ++ 36 :: py "C")
    = yields [SymbolToken 0 0; OperatorToken Operator.CONJ 2; SymbolToken 1 4]
        (Raise (LexicalAnalysisFailedError 7 [36]))
  /\ nonspace_offsets 0 (py "A & B ") = [0; 2; 4].
Proof.
  destruct (tokens_before_the_error latin1_only (py "A & B ") 36 (py "C"))
    as (toks & H1 & H2 & H3 & _); [reflexivity | reflexivity |].
  assert (E : toks = [SymbolToken 0 0; OperatorToken Operator.CONJ 2;
                      SymbolToken 1 4]).
  { apply (f_equal yielded) in H1. rewrite yielded_yields_stop in H1.
    rewrite <- H1. vm_compute. reflexivity. }
  rewrite E in H2, H3. split; [exact H2 | symmetry; exact H3].
Defined.

(** C3 as it is worded fails on the whitespace above U+007F: behind a
    letter the no-break space U+00A0 is passed over, and the iteration
    over "A", U+00A0, "B" ends normally with the tokens of both letters. *)
Lemma non_ascii_whitespace_not_reported :
  127 < 160
  /\ forallb recognised (py "A") = true
  /\ get_all_tokens latin1_only (py "A" ++ 160 :: py "B")
     = yields [SymbolToken 0 0; SymbolToken 1 2] StopIteration
  /\ raised (get_all_tokens latin1_only (py "A" ++ 160 :: py "B")) = None
  /\ ~ (forall c pre rest,
          127 < c -> forallb recognised pre = true ->
          raised (get_all_tokens latin1_only (pre ++ c :: rest))
            = Some (LexicalAnalysisFailedError (len pre + 1) [c])).
Proof.
  split; [lia|]. split; [reflexivity|]. split; [reflexivity|].
  split; [reflexivity|].
  intros H. specialize (H 160 (py "A") (py "B")).
  assert (E : raised (get_all_tokens latin1_only (py "A" ++ 160 :: py "B")) = None)
    by reflexivity.
  rewrite E in H. discriminate H; [lia | reflexivity].
Qed.

Lemma positions_are_offsets_witness :
  Forall (fun t => 0 <= position t < len (py "(P ~ Q)")
                   /\ token_at latin1_only (py "(P ~ Q)") t)
         [LeftParenToken 0; SymbolToken 15 1;
          OperatorToken Operator.MAT_COND 3; SymbolToken 16 5;
          RightParenToken 6]
  /\ increasing [0; 1; 3; 5; 6].
Proof.
  apply (positions_are_offsets latin1_only (py "(P ~ Q)")
           [LeftParenToken 0; SymbolToken 15 1;
            OperatorToken Operator.MAT_COND 3; SymbolToken 16 5;
            RightParenToken 6]).
  vm_compute. reflexivity.
Defined.

(** * Further properties of the scanner *)

(** X1. The positions of the tokens that are yielded are exactly the
    offsets of the characters other than whitespace in the longest
    recognised prefix of the input, in order: each such character gives one
    token, and nothing else does. *)
Theorem one_token_per_character ucd s :
  map position (yielded (get_all_tokens ucd s))
    = nonspace_offsets 0 (recognised_prefix s).
Proof. rewrite get_all_tokens_scan. apply scan_offsets. Qed.

Lemma span_firstn set s :
  forallb set (firstn (span set s) s) = true.
Proof.
  induction s as [|c s IH]; [reflexivity|]. simpl.
  destruct (set c) eqn:E; [|reflexivity]. simpl. now rewrite E.
Qed.

Lemma finditer_tiles s :
  forall skip pos,
  (skip <= span isspace_char s)%nat ->
  let mats := finditer_from pattern skip pos s in
  concat (map group mats) = skipn skip s
  /\ contiguous (pos + Z.of_nat skip) mats
  /\ Forall (fun mat => group mat <> []) mats.
Proof.
  induction s as [|c s IH]; intros skip pos Hskip.
  - simpl. destruct skip; simpl; auto.
  - destruct skip as [|k].
    + cbv zeta. rewrite finditer_from_match.
      destruct (match_groups pattern (c :: s)) as [[name n]|] eqn:E.
      * destruct (body_scan_char latin1_only c s pos name n E) as [_ Hn].
        assert (Hpos : (1 <= n)%nat).
        { rewrite match_groups_pattern in E.
          destruct (set_A_Za_z c), (is_operator_glyph c), (set_parens c),
            (isspace_char c); injection E as <- <-; lia. }
        assert (Hlen : (n <= length (c :: s))%nat).
        { pose proof (span_firstn isspace_char s) as Hf.
          assert (span isspace_char s <= length s)%nat.
          { clear. induction s as [|d s IH]; simpl; [lia|].
            destruct (isspace_char d); simpl; lia. }
          simpl length. lia. }
        destruct (IH (pred n) (pos + 1) Hn) as (Hc & Hcont & Hne).
        destruct n as [|m]; [lia|]. simpl pred in *.
        simpl map. simpl concat. simpl group. split; [|split].
        -- rewrite Hc. simpl. f_equal. apply firstn_skipn.
        -- simpl. split; [lia|].
           replace (pos + 0 + len (c :: firstn m s))
             with (pos + 1 + Z.of_nat m); [exact Hcont|].
           unfold len. simpl length. rewrite firstn_length_le; simpl in Hlen; lia.
        -- constructor; [simpl; discriminate | exact Hne].
      * rewrite match_groups_pattern in E.
        destruct (set_A_Za_z c), (is_operator_glyph c), (set_parens c),
          (isspace_char c); discriminate.
    + simpl in Hskip. destruct (isspace_char c) eqn:Hs; [|lia].
      assert (Hk : (k <= span isspace_char s)%nat) by lia.
      destruct (IH k (pos + 1) Hk) as (Hc & Hcont & Hne).
      cbv zeta. simpl finditer_from. simpl skipn.
      split; [exact Hc|]. split; [|exact Hne].
      replace (pos + Z.of_nat (S k)) with (pos + 1 + Z.of_nat k) by lia.
      exact Hcont.
Qed.

(** X2. The matches that finditer finds with the pattern tile the input:
    they lie end to end from offset 0, none is empty, and their texts put
    together are the input. No character is stepped over unmatched. *)
Theorem matches_tile_the_input s :
  concat (map group (finditer pattern s)) = s
  /\ contiguous 0 (finditer pattern s)
  /\ Forall (fun mat => group mat <> []) (finditer pattern s).
Proof.
  destruct (finditer_tiles s 0 0) as (H1 & H2 & H3); [lia|].
  auto.
Qed.

(** The dispatch at another offset: the same turn, moved. *)
Lemma scan_char_shift c pos k :
  scan_char c (pos + k) =
    match scan_char c pos with
    | Emit t => Emit (shift_token k t)
    | Pass => Pass
    | Throw (LexicalAnalysisFailedError column text) =>
        Throw (LexicalAnalysisFailedError (column + k) text)
    | Throw e => Throw e
    end.
Proof.
  unfold scan_char. destruct (set_A_Za_z c); [reflexivity|].
  destruct (Operator.from_input_form [c]); [reflexivity|].
  destruct (c =? 40); [reflexivity|]. destruct (c =? 41); [reflexivity|].
  destruct (isspace_char c); [reflexivity|].
  do 2 f_equal. lia.
Qed.

Lemma scan_shift s :
  forall pos k, scan (pos + k) s = shift_gen k (scan pos s).
Proof.
  induction s as [|c s IH]; intros pos k; [reflexivity|].
  simpl scan. rewrite scan_char_shift.
  replace (pos + k + 1) with (pos + 1 + k) by lia. rewrite IH.
  destruct (scan_char c pos) as [t| |[]]; reflexivity.
Qed.

(** X3. The tokens of a text put behind a recognised text are the tokens
    of the first text, and then what the second text gives by itself with
    every position, and the column of the error if it ends in one, moved by
    the length of the first. *)
Theorem tokens_of_concatenation ucd pre rest :
  forallb recognised pre = true ->
  get_all_tokens ucd (pre ++ rest)
    = yields (yielded (get_all_tokens ucd pre))
        (shift_gen (len pre) (get_all_tokens ucd rest)).
Proof.
  intros H. rewrite !get_all_tokens_scan.
  rewrite (proj2 (scan_prefix pre 0 rest H)), scan_shift. reflexivity.
Qed.

Lemma tokens_of_concatenation_witness :
  get_all_tokens latin1_only (py "(A | " ++ py "b) = #")
    = yields (yielded (get_all_tokens latin1_only (py "(A | ")))
        (shift_gen (len (py "(A | ")) (get_all_tokens latin1_only (py "b) = #"))).
Proof.
  apply (tokens_of_concatenation latin1_only (py "(A | ") (py "b) = #")).
  reflexivity.
Defined.

Lemma upper_char_ascii ucd c :
  0 <= c <= 127 ->
  upper_char ucd c = [if in_range 97 122 c then c - 32 else c].
Proof.
  intros H. unfold upper_char, latin1_upper.
  assert (E : in_range 0 255 c = true) by (apply in_range_spec; lia).
  rewrite E. destruct (in_range 97 122 c); [reflexivity|].
  destruct (Z.eqb_spec c 181); [lia|]. destruct (Z.eqb_spec c 223); [lia|].
  destruct (in_range 224 246 c) eqn:E1; [apply in_range_spec in E1; lia|].
  destruct (in_range 248 254 c) eqn:E2; [apply in_range_spec in E2; lia|].
  destruct (Z.eqb_spec c 255); [lia | reflexivity].
Qed.

Lemma scan_char_capital c pos :
  in_range 97 122 c = true -> scan_char (c - 32) pos = scan_char c pos.
Proof.
  intros H. apply in_range_spec in H. unfold scan_char.
  assert (E1 : set_A_Za_z (c - 32) = true) by (apply set_A_Za_z_spec; lia).
  assert (E2 : set_A_Za_z c = true) by (apply set_A_Za_z_spec; lia).
  rewrite E1, E2. unfold letter_number.
  destruct (Z.leb_spec (c - 32) 90); [|lia]. destruct (Z.leb_spec c 90); [lia|].
  do 2 f_equal. lia.
Qed.

(** X4. The scanner does not tell the case of letters: an ASCII text and
    its upper() give the same tokens and end the same way. *)
Theorem case_insensitive ucd s :
  Forall (fun c => 0 <= c <= 127) s ->
  get_all_tokens ucd (upper ucd s) = get_all_tokens ucd s.
Proof.
  intros H. rewrite !get_all_tokens_scan. generalize 0 as pos.
  induction H as [|c s Hc Hs IH]; intros pos; [reflexivity|].
  unfold upper in *. simpl flat_map. rewrite (upper_char_ascii ucd c Hc).
  simpl. rewrite IH.
  destruct (in_range 97 122 c) eqn:E; [|reflexivity].
  rewrite (scan_char_capital c pos E). reflexivity.
Qed.

Lemma case_insensitive_witness :
  get_all_tokens latin1_only (upper latin1_only (py "(p ~ q) & r"))
    = get_all_tokens latin1_only (py "(p ~ q) & r").
Proof.
  apply (case_insensitive latin1_only (py "(p ~ q) & r")).
  apply Forall_forall. intros c Hc. vm_compute in Hc.
  repeat (destruct Hc as [<- | Hc]; [lia|]). destruct Hc.
Defined.

Lemma unplaced_shift k t : unplaced (shift_token k t) = unplaced t.
Proof. destruct t; reflexivity. Qed.

Lemma scan_without_whitespace s :
  forall pos pos',
  let g := scan pos s in
  let g' := scan pos' (filter (fun c => negb (isspace_char c)) s) in
  map unplaced (yielded g) = map unplaced (yielded g')
  /\ (raised g = None <-> raised g' = None).
Proof.
  induction s as [|c s IH]; intros pos pos'; [simpl; tauto|].
  cbv zeta. simpl filter. simpl scan at 1 3.
  pose proof (scan_char_shift c pos (pos' - pos)) as Hsh.
  replace (pos + (pos' - pos)) with pos' in Hsh by lia.
  destruct (scan_char_cases c pos)
    as [[Hs E] | [(Hs & Hr & t & E & Hp) | [Hr E]]]; rewrite E in *.
  - rewrite Hs. simpl negb. cbv iota. apply IH.
  - rewrite Hs. simpl negb. cbv iota. simpl scan. rewrite Hsh.
    destruct (IH (pos + 1) (pos' + 1)) as [IH1 IH2]. simpl.
    rewrite unplaced_shift, IH1. auto.
  - assert (Hs : isspace_char c = false) by (apply recognised_false in Hr; tauto).
    rewrite Hs. simpl negb. cbv iota. simpl scan. rewrite Hsh. simpl.
    split; [reflexivity | split; discriminate].
Qed.

(** X5. Whitespace bears on the positions only: the input and the input
    with its whitespace taken out give, positions apart, the same tokens,
    and so the same printed forms, and one ends in an error exactly when
    the other does. *)
Theorem whitespace_insensitive max_str_digits ucd s :
  let g := get_all_tokens ucd s in
  let g' := get_all_tokens ucd (filter (fun c => negb (isspace_char c)) s) in
  map unplaced (yielded g) = map unplaced (yielded g')
  /\ map (Token_repr max_str_digits) (yielded g)
     = map (Token_repr max_str_digits) (yielded g')
  /\ (raised g = None <-> raised g' = None).
Proof.
  cbv zeta. rewrite !get_all_tokens_scan.
  destruct (scan_without_whitespace s 0 0) as [H1 H2].
  split; [exact H1|]. split; [|exact H2].
  assert (E : forall l, map (Token_repr max_str_digits) l
                        = map (Token_repr max_str_digits) (map unplaced l)).
  { intros l. rewrite map_map. apply map_ext. intros []; reflexivity. }
  rewrite E, H1, <- E. reflexivity.
Qed.

(** * The printed forms *)

Lemma py_inj a b : py a = py b -> a = b.
Proof.
  unfold py. intros H.
  rewrite <- (string_of_list_ascii_of_string a),
    <- (string_of_list_ascii_of_string b).
  f_equal. revert H.
  generalize (list_ascii_of_string a) (list_ascii_of_string b).
  induction l as [|x l IH]; intros [|y l']; simpl; try discriminate; auto.
  intros E. injection E as Hx Hl. f_equal; [|auto].
  apply N2Z.inj in Hx.
  rewrite <- (ascii_N_embedding x), <- (ascii_N_embedding y). now f_equal.
Qed.

Lemma numeral_inj a b : numeral a = numeral b -> a = b.
Proof.
  unfold numeral. intros H. apply py_inj in H.
  apply DecimalZ.to_int_inj.
  assert (Hn : forall n, Z.to_int n <> Decimal.Pos Decimal.Nil
                         /\ Z.to_int n <> Decimal.Neg Decimal.Nil).
  { intros [|p|p]; simpl; split; try discriminate; intros E; injection E;
      apply DecimalPos.Unsigned.to_uint_nonnil. }
  apply (f_equal DecimalString.NilZero.int_of_string) in H.
  rewrite !DecimalString.NilZero.isi in H by apply Hn.
  now injection H.
Qed.

Lemma int_repr_Repr limit n text :
  int_repr limit n = Repr text -> text = numeral n.
Proof.
  unfold int_repr.
  destruct ((640 <? len (numeral n)) && (0 <? limit)
            && (limit <? (if n <? 0 then len (numeral n) - 1 else len (numeral n))));
    [discriminate|].
  intros E. now injection E.
Qed.

Lemma Repr_inj a b : Repr a = Repr b -> a = b.
Proof. intros E. now injection E. Qed.

(** The symbols of the letters are printed whatever the limit is. *)
Lemma int_repr_letter limit n :
  0 <= n <= 25 -> int_repr limit n = Repr (numeral n).
Proof.
  intros H.
  assert (E : (len (numeral n) <=? 640) = true).
  { apply (forall_zrange (fun n => len (numeral n) <=? 640) 0 26);
      [vm_compute; reflexivity | lia]. }
  apply Z.leb_le in E. unfold int_repr.
  destruct (Z.ltb_spec 640 (len (numeral n))); [lia | reflexivity].
Qed.

(** X6. The printed form of a token tells its class and its value and
    nothing of its position. Tokens that are the same positions apart are
    printed alike, or both not at all; two tokens with the same printed
    form are the same positions apart; and every token that the scanner
    yields has a printed form, whatever the limit on the digits of an
    integer is. *)
Theorem repr_up_to_position max_str_digits :
  (forall t t',
     unplaced t = unplaced t' ->
     Token_repr max_str_digits t = Token_repr max_str_digits t')
  /\ (forall t t' text,
        Token_repr max_str_digits t = Repr text ->
        Token_repr max_str_digits t' = Repr text ->
        unplaced t = unplaced t')
  /\ (forall ucd s,
        Forall (fun t => exists text, Token_repr max_str_digits t = Repr text)
               (yielded (get_all_tokens ucd s))).
Proof.
  split; [|split].
  - intros t t'. destruct t, t'; simpl; intros E; try discriminate;
      try reflexivity; injection E as ->; reflexivity.
  - intros t t' text H' H.
    destruct t as [v p|v p|p|p], t' as [v' p'|v' p'|p'|p'];
      unfold Token_repr, Symbol_repr in H, H';
      try destruct (int_repr max_str_digits v) as [d|] eqn:Ev;
      try destruct (int_repr max_str_digits v') as [d'|] eqn:Ev';
      try discriminate; try reflexivity;
      apply Repr_inj in H, H'; rewrite <- H' in H; clear H' text;
      try (apply (f_equal (hd 0)) in H; vm_compute in H; discriminate).
    + apply app_inv_head, app_inv_tail, app_inv_head, app_inv_tail in H.
      apply int_repr_Repr in Ev, Ev'. subst d d'.
      apply numeral_inj in H. now subst.
    + destruct v, v'; try reflexivity; vm_compute in H; discriminate.
  - intros ucd s. pose proof (scan_positions ucd s []) as [Hf _].
    rewrite <- get_all_tokens_scan with (ucd := ucd) in Hf.
    eapply Forall_impl; [|exact Hf]. intros t [_ Ht].
    destruct t as [v p|v p|p|p]; simpl; try (eexists; reflexivity).
    destruct Ht as (c & _ & Hl & Hv).
    rewrite (from_letter_ascii ucd c Hl) in Hv. injection Hv as <-.
    unfold Symbol_repr.
    rewrite (int_repr_letter _ _ (letter_number_bounds c Hl)).
    eexists. reflexivity.
Qed.

(** * Further properties of the symbol table *)

Lemma nth_ascii_uppercase j :
  0 <= j < 26 -> nth (Z.to_nat j) ascii_uppercase 0 = 65 + j.
Proof.
  intros H. apply Z.eqb_eq.
  apply (forall_zrange
           (fun j => nth (Z.to_nat j) ascii_uppercase 0 =? 65 + j) 0 26);
    [vm_compute; reflexivity | lia].
Qed.

(** X7. Symbol.to_str renders the symbols 0 to 25 as the letters A to Z,
    renders -26 to -1 as the same letters again, counted from the end of
    the alphabet, and raises IndexError on every other symbol. *)
Theorem to_str_domain n :
  (-26 <= n <= 25 -> Symbol.to_str n = Ok [65 + n mod 26])
  /\ (n < -26 \/ 25 < n -> Symbol.to_str n = Raised IndexError).
Proof.
  unfold Symbol.to_str, getitem. change (len ascii_uppercase) with 26.
  split; intros H.
  - destruct (Z.ltb_spec n 0).
    + destruct (Z.leb_spec 0 (n + 26)); [|lia].
      destruct (Z.ltb_spec (n + 26) 26); [|lia]. cbn [andb].
      rewrite nth_ascii_uppercase by lia. do 3 f_equal.
      apply Z.mod_unique with (q := -1); lia.
    + destruct (Z.leb_spec 0 n); [|lia]. destruct (Z.ltb_spec n 26); [|lia].
      cbn [andb]. rewrite nth_ascii_uppercase by lia. do 3 f_equal.
      symmetry. apply Z.mod_small. lia.
  - destruct (Z.ltb_spec n 0).
    + destruct (Z.leb_spec 0 (n + 26)); [|reflexivity].
      destruct (Z.ltb_spec (n + 26) 26); [lia | reflexivity].
    + destruct (Z.leb_spec 0 n); [|lia].
      destruct (Z.ltb_spec n 26); [lia | reflexivity].
Qed.

(** X8. A symbol from 0 to 25 is the symbol of the letter it is rendered
    as: Symbol.from_letter undoes Symbol.to_str there. *)
Theorem from_letter_of_to_str ucd n :
  0 <= n <= 25 ->
  exists text,
    Symbol.to_str n = Ok text /\ Symbol.from_letter ucd text = Ok n.
Proof.
  intros H.
  assert (E : to_str_back_is ucd n = true).
  { apply (forall_zrange (to_str_back_is ucd) 0 26);
      [vm_compute; reflexivity | lia]. }
  unfold to_str_back_is in E.
  destruct (Symbol.to_str n) as [text|]; [|discriminate].
  exists text. split; [reflexivity|].
  apply andb_true_iff in E. destruct E as [_ E].
  destruct (Symbol.from_letter ucd text) as [m|]; simpl in E.
  - apply Z.eqb_eq in E. now subst.
  - destruct e as [[]| | |]; discriminate.
Qed.

Lemma from_letter_of_to_str_witness :
  exists text,
    Symbol.to_str 16 = Ok text /\ Symbol.from_letter latin1_only text = Ok 16.
Proof. apply (from_letter_of_to_str latin1_only 16). lia. Defined.

Lemma find_from_empty s i : find_from i s [] = i.
Proof. destruct s; reflexivity. Qed.

Lemma find_from_bounds s :
  forall i sub, sub <> [] ->
  find_from i s sub = -1 \/ i <= find_from i s sub < i + len s.
Proof.
  induction s as [|c s IH]; intros i sub Hsub.
  - left. destruct sub; [contradiction | reflexivity].
  - simpl. destruct (startswith (c :: s) sub).
    + right. rewrite len_cons. pose proof (len_nonneg s). lia.
    + destruct (IH (i + 1) sub Hsub) as [-> | H]; [now left|].
      right. rewrite len_cons. lia.
Qed.

(** X9. Symbol.from_letter checks the length first and the letter second:
    a string that is not one character raises the first ValueError, one
    character that is not alphabetic raises the second, and one alphabetic
    character gives a symbol, which is never below -1 nor above 25. *)
Theorem from_letter_outcomes ucd letter :
  (len letter <> 1
   /\ Symbol.from_letter ucd letter = Raised (ValueError NotSingleCharacter))
  \/ (len letter = 1 /\ isalpha ucd letter = false
      /\ Symbol.from_letter ucd letter = Raised (ValueError NotALetter))
  \/ (len letter = 1 /\ isalpha ucd letter = true
      /\ exists sym, Symbol.from_letter ucd letter = Ok sym /\ -1 <= sym <= 25).
Proof.
  unfold Symbol.from_letter.
  destruct (Z.eqb_spec (len letter) 1) as [Hl|Hl]; [right | left; auto].
  destruct (isalpha ucd letter); [right | left; auto].
  repeat split; auto. eexists. split; [reflexivity|].
  unfold find. destruct (upper ucd letter) as [|c u].
  - rewrite find_from_empty. lia.
  - destruct (find_from_bounds ascii_uppercase 0 (c :: u)) as [-> | H];
      [discriminate | lia |].
    change (len ascii_uppercase) with 26 in H. lia.
Qed.

(** X10. On a character of the first 256 code points Symbol.from_letter
    gives an ASCII letter its number from 0 to 25, gives every other letter
    of the block the symbol -1, and raises its ValueError on what is not a
    letter. *)
Theorem from_letter_on_latin1 ucd (c : char) :
  0 <= c <= 255 ->
  Symbol.from_letter ucd [c] = from_letter_latin1 c.
Proof.
  intros H.
  assert (E : from_letter_latin1_is ucd c = true).
  { apply (forall_zrange (from_letter_latin1_is ucd) 0 256);
      [vm_compute; reflexivity | lia]. }
  unfold from_letter_latin1_is, result_eqb in E. revert E.
  destruct (Symbol.from_letter ucd [c]) as [x|[[]| | |]];
    destruct (from_letter_latin1 c) as [y|[[]| | |]]; intros E;
    try discriminate; try reflexivity.
  apply Z.eqb_eq in E. now subst.
Qed.

Lemma from_letter_on_latin1_witness :
  Symbol.from_letter latin1_only [223] = from_letter_latin1 223.
Proof. apply (from_letter_on_latin1 latin1_only 223). lia. Defined.

(** * Further properties of the operator table *)

Lemma lookup_ok ops form op :
  Operator.lookup ops form = Ok op -> input_form (Operator.value op) = form.
Proof.
  induction ops as [|o ops IH]; simpl; [discriminate|].
  destruct (str_eqb (input_form (Operator.value o)) form) eqn:E; [|exact IH].
  intros H. injection H as <-. now apply str_eqb_eq.
Qed.

(** X11. Operator.from_input_form returns an operator exactly for the
    input form of that operator, so looking up the input form of an
    operator gives the operator back, and no two operators share an input
    form. *)
Theorem from_input_form_iff :
  (forall form op,
     Operator.from_input_form form = Ok op
     <-> input_form (Operator.value op) = form)
  /\ (forall a b,
        input_form (Operator.value a) = input_form (Operator.value b) -> a = b).
Proof.
  assert (H : forall form op,
             Operator.from_input_form form = Ok op
             <-> input_form (Operator.value op) = form).
  { intros form op. split; [apply lookup_ok|].
    intros <-. destruct op; reflexivity. }
  split; [exact H|].
  intros a b E. apply H in E. rewrite (proj2 (H _ b) eq_refl) in E.
  now injection E.
Qed.

(** X12. The input form of each operator is tokenized as that operator,
    at position 0, and nothing else; the form in which an operator is
    displayed is not accepted: it fails at column 1. *)
Theorem operator_forms_scanned ucd op :
  get_all_tokens ucd (input_form (Operator.value op))
    = Yield (OperatorToken op 0) StopIteration
  /\ get_all_tokens ucd (actual_form (Operator.value op))
    = Raise (LexicalAnalysisFailedError 1 (actual_form (Operator.value op))).
Proof. destruct op; split; vm_compute; reflexivity. Qed.

(** * The read-print loop *)

Lemma list_of_gen g :
  list_of g = match raised g with
              | None => Ok (yielded g)
              | Some e => Raised e
              end.
Proof.
  induction g as [|t g IH|e]; simpl; try reflexivity.
  rewrite IH. destruct (raised g); reflexivity.
Qed.

Lemma recognised_prefix_all s :
  forallb recognised s = true -> recognised_prefix s = s.
Proof.
  induction s as [|c s IH]; simpl; [reflexivity|].
  intros H. apply andb_true_iff in H. destruct H as [-> H]. f_equal. auto.
Qed.

(** X13. list(get_all_tokens(s)) returns when every character of the input
    is recognised, and then holds one token for each character that is no
    whitespace, at its offset. Otherwise it raises
    LexicalAnalysisFailedError, whose column less one is the offset of an
    unrecognised character of the input and whose text is that
    character. *)
Theorem list_of_get_all_tokens ucd s :
  (forallb recognised s = true ->
   exists toks,
     list_of (get_all_tokens ucd s) = Ok toks
     /\ map position toks = nonspace_offsets 0 s)
  /\ (forallb recognised s = false ->
      exists column c,
        list_of (get_all_tokens ucd s)
          = Raised (LexicalAnalysisFailedError column [c])
        /\ nth_error s (Z.to_nat (column - 1)) = Some c
        /\ recognised c = false).
Proof.
  rewrite list_of_gen. split; intros H.
  - rewrite (get_all_tokens_clean ucd s H), raised_yields. simpl.
    rewrite yielded_yields_stop. eexists. split; [reflexivity|].
    rewrite get_all_tokens_scan, scan_offsets, recognised_prefix_all; auto.
  - destruct (first_unrecognised s) as [E | (pre & c & rest & -> & Hpre & Hc)];
      [congruence|].
    rewrite (proj2 (get_all_tokens_error ucd pre c rest Hpre Hc)), raised_yields.
    simpl. exists (len pre + 1), c. split; [reflexivity|].
    replace (len pre + 1 - 1) with (len pre) by lia.
    split; [apply nth_error_at | exact Hc].
Qed.

Lemma list_of_outcomes ucd line :
  (exists toks, list_of (get_all_tokens ucd line) = Ok toks)
  \/ exists column text,
       list_of (get_all_tokens ucd line)
         = Raised (LexicalAnalysisFailedError column text).
Proof.
  rewrite list_of_gen.
  destruct (first_unrecognised line)
    as [E | (pre & c & rest & -> & Hpre & Hc)].
  - rewrite (get_all_tokens_clean ucd line E), raised_yields. simpl. eauto.
  - rewrite (proj2 (get_all_tokens_error ucd pre c rest Hpre Hc)),
      raised_yields. simpl. eauto.
Qed.

(** X14. No exception of the tokenizer ends the loop: it ends by the break
    on EOFError or by an exception that a call of input, pprint.pprint or
    print raises itself. When none of these calls raises, the loop writes
    for each line the prompt and one report, the list of the tokens of the
    line or else the lexical error of the line, and the prompt once more
    before the end of the input stops it. *)
Theorem main_reports_every_line ucd (io_error : Type) :
  (forall write written stdin,
     match snd (main ucd io_error write written stdin) with
     | Uncaught _ _ => False
     | _ => True
     end)
  /\ (forall write written lines,
        (forall before o, write before o = None) ->
        main ucd io_error write written (map (Returns io_error) lines)
          = (written
             ++ flat_map
                  (fun input_str =>
                     [Prompt;
                      match list_of (get_all_tokens ucd input_str) with
                      | Ok toks => PPrint toks
                      | Raised e => Print e
                      end]) lines
             ++ [Prompt],
             Break io_error)).
Proof.
  split.
  - intros write written stdin. revert written.
    induction stdin as [|[line|e] stdin IH]; intros written; simpl; auto.
    destruct (list_of_outcomes ucd line) as [[toks ->] | (column & text & ->)].
    + destruct (write _ _); [exact I | apply IH].
    + destruct (write _ _); [exact I | apply IH].
  - intros write written lines Hw. revert written.
    induction lines as [|line lines IH]; intros written; [reflexivity|].
    simpl.
    destruct (list_of_outcomes ucd line) as [[toks ->] | (column & text & ->)];
      rewrite Hw, IH, <- !app_assoc; reflexivity.
Qed.
